(** * pool.hpp: the pool functions of finn-hlslib

    A shallow embedding of [src/pool.hpp].  The accumulator and output
    types [TA] and [TO] are Vivado HLS arbitrary-precision integers
    [ap_int<w>] / [ap_uint<w>]; a value of such a type is a [Z] in its
    representable range, and every conversion into the type wraps around
    modulo [2^w].  C++ operations whose result the standard leaves
    undefined (an [int] shift out of range, a division by zero) return
    [None]. *)

From Stdlib Require Import ZArith Lia List Permutation Bool.
Import ListNotations.
Open Scope Z_scope.

(** ** Arbitrary-precision integer types *)

(** [ap_int<width>] when [is_signed] holds, [ap_uint<width>] otherwise. *)
Record ap_type := mk_ap_type { width : Z; is_signed : bool }.

Definition ap_int (w : Z) : ap_type := mk_ap_type w true.
Definition ap_uint (w : Z) : ap_type := mk_ap_type w false.

(** Two's-complement wrap-around into [w] bits. *)
Definition wrap_signed (w z : Z) : Z :=
  (z + 2 ^ (w - 1)) mod 2 ^ w - 2 ^ (w - 1).

Definition wrap_unsigned (w z : Z) : Z := z mod 2 ^ w.

(** [T(z)]: conversion of an integer into the type [T]. *)
Definition conv (T : ap_type) (z : Z) : Z :=
  if is_signed T then wrap_signed (width T) z else wrap_unsigned (width T) z.

(** The values of type [T]. *)
Definition in_range (T : ap_type) (z : Z) : bool :=
  if is_signed T
  then (- 2 ^ (width T - 1) <=? z) && (z <? 2 ^ (width T - 1))
  else (0 <=? z) && (z <? 2 ^ width T).

(** ** C++ [int] *)

(** [E1 << E2] on a 32-bit [int] (C++14 and later): defined when
    [0 <= E2 < 32] (a positive [E1] may be shifted into the sign bit, the
    result wraps to the [int] range); undefined otherwise. *)
Definition int_shl (e1 e2 : Z) : option Z :=
  if (0 <=? e2) && (e2 <? 32)
  then Some (wrap_signed 32 (Z.shiftl e1 e2))
  else None.

(** ** Comparison and addition functors of [activations.hpp] *)

Module comp.

(** Modelled from the spec: [comp::max] of [activations.hpp] (not part of
    the sources given), "max(a: T, b: T) -> T, total order over T". *)
Definition max (a b : Z) : Z := Z.max a b.

(** Modelled from the spec: [comp::add<T, T, T>] of [activations.hpp]
    (not part of the sources given), "add(a: T, b: T) -> T, standard
    two's-complement or unsigned wraparound semantics per T's width". *)
Definition add (T : ap_type) (a b : Z) : Z := conv T (a + b).

End comp.

(** ** The pool functions *)

(** [PoolFunction<TA, TO, size>]: the general contract; [init] returns [TA(0)]. *)
Module PoolFunction.
Definition init (TA : ap_type) : Z := conv TA 0.
End PoolFunction.

(** [MaxPoolFunction<T, size>] *)
Module MaxPoolFunction.

(** [const T T_MIN_VAL = (T(-1)<0)? 1<<(T::width-1) : 0;]
    The shift is evaluated on [int]; its result is converted to [T]. *)
Definition init (T : ap_type) : option Z :=
  if conv T (-1) <? 0
  then match int_shl 1 (width T - 1) with
       | Some v => Some (conv T v)
       | None => None
       end
  else Some (conv T 0).

Definition pool (T : ap_type) (input accu : Z) : Z := comp.max input accu.

Definition activate (T : ap_type) (accu : Z) : Z := accu.

End MaxPoolFunction.

(** [AvgPoolFunction<TA, TO, size>]; [size] is an [unsigned]. *)
Module AvgPoolFunction.

Definition init (TA : ap_type) : Z := PoolFunction.init TA.

Definition pool (TA : ap_type) (input accu : Z) : Z := comp.add TA input accu.

(** [return (accu/size);]: integer division truncating toward zero, the
    quotient converted to [TO]; undefined for [size = 0]. *)
Definition activate (TA TO : ap_type) (size : N) (accu : Z) : option Z :=
  if (size =? 0)%N then None
  else Some (conv TO (Z.quot accu (Z.of_N size))).

End AvgPoolFunction.

(** [AccPoolFunction<TA, size>] *)
Module AccPoolFunction.

Definition init (TA : ap_type) : Z := PoolFunction.init TA.

Definition pool (TA : ap_type) (input accu : Z) : Z := comp.add TA input accu.

Definition activate (TA : ap_type) (accu : Z) : Z := accu.

End AccPoolFunction.

(** [QuantAvgPoolFunction<TA, TO, size>] *)
Module QuantAvgPoolFunction.

Definition init (TA : ap_type) : Z := PoolFunction.init TA.

(** [return input + accu;]: the sum is converted back to [TA]. *)
Definition pool (TA : ap_type) (input accu : Z) : Z := conv TA (input + accu).

(** [return TO(accu>>size);]: arithmetic right shift, then conversion. *)
Definition activate (TA TO : ap_type) (size : N) (accu : Z) : Z :=
  conv TO (Z.shiftr accu (Z.of_N size)).

End QuantAvgPoolFunction.

(** ** One window

    [accu = init(); for each element e: accu = pool(e, accu);
     result = activate(accu)]. *)
Definition fold_window {A : Type} (pool : A -> A -> A) (init : A) (l : list A) : A :=
  fold_left (fun accu e => pool e accu) l init.

Definition max_window (T : ap_type) (l : list Z) : option Z :=
  match MaxPoolFunction.init T with
  | Some i => Some (MaxPoolFunction.activate T
                      (fold_window (MaxPoolFunction.pool T) i l))
  | None => None
  end.

Definition sum_list (l : list Z) : Z := fold_right Z.add 0 l.

(** A binary operation that is commutative and associative. *)
Definition assoc_comm (f : Z -> Z -> Z) : Prop :=
  (forall a b, f a b = f b a) /\ (forall a b c, f a (f b c) = f (f a b) c).

(** ** Arithmetic of the conversions *)

Lemma pow_width_split (w : Z) : 1 <= w -> 2 ^ w = 2 * 2 ^ (w - 1).
Proof.
  intros Hw. replace w with (Z.succ (w - 1)) at 1 by lia.
  rewrite Z.pow_succ_r by lia. reflexivity.
Qed.

Lemma mod_add_idemp_r_any (a b m : Z) : (a + b mod m) mod m = (a + b) mod m.
Proof.
  destruct (Z.eq_dec m 0) as [->|Hm].
  - rewrite !Z.mod_0_r. reflexivity.
  - apply Z.add_mod_idemp_r; exact Hm.
Qed.

(** Converting an inner sum first does not change the converted total. *)
Lemma conv_add_r (T : ap_type) (x y : Z) : conv T (x + conv T y) = conv T (x + y).
Proof.
  unfold conv, wrap_signed, wrap_unsigned. destruct (is_signed T).
  - f_equal. replace (x + ((y + 2 ^ (width T - 1)) mod 2 ^ width T - 2 ^ (width T - 1))
                       + 2 ^ (width T - 1))
      with (x + (y + 2 ^ (width T - 1)) mod 2 ^ width T) by lia.
    rewrite mod_add_idemp_r_any. f_equal. lia.
  - apply mod_add_idemp_r_any.
Qed.

Lemma conv_id (T : ap_type) (x : Z) :
  1 <= width T -> in_range T x = true -> conv T x = x.
Proof.
  intros Hw Hr. unfold in_range in Hr. unfold conv, wrap_signed, wrap_unsigned.
  pose proof (pow_width_split _ Hw) as Hp.
  pose proof (Z.pow_pos_nonneg 2 (width T - 1) ltac:(lia) ltac:(lia)).
  destruct (is_signed T); apply andb_true_iff in Hr as [H1 H2];
    apply Z.leb_le in H1; apply Z.ltb_lt in H2.
  - rewrite Z.mod_small by lia. lia.
  - apply Z.mod_small. lia.
Qed.

(** [TA(0)] is [0] for every type. *)
Lemma conv_zero (T : ap_type) : conv T 0 = 0.
Proof.
  destruct (Z_le_gt_dec 1 (width T)) as [Hw|Hw].
  - apply conv_id; [exact Hw|]. unfold in_range.
    pose proof (Z.pow_pos_nonneg 2 (width T - 1) ltac:(lia) ltac:(lia)).
    pose proof (pow_width_split _ Hw).
    destruct (is_signed T); apply andb_true_iff; split;
      first [apply Z.leb_le | apply Z.ltb_lt]; lia.
  - unfold conv, wrap_signed, wrap_unsigned.
    rewrite (Z.pow_neg_r 2 (width T - 1)) by lia.
    destruct (is_signed T); [rewrite Z.add_0_r, Z.sub_0_r|];
      (destruct (Z.eq_dec (2 ^ width T) 0) as [->|Hm];
       [apply Z.mod_0_r | apply Z.mod_0_l; exact Hm]).
Qed.

(** Wrapping into 32 bits first does not change a wrap into [w <= 32] bits. *)
Lemma wrap_signed_32 (w z : Z) :
  1 <= w <= 32 -> wrap_signed w (wrap_signed 32 z) = wrap_signed w z.
Proof.
  intros Hw. unfold wrap_signed at 2.
  assert (HM : 2 ^ 32 = 2 ^ (32 - w) * 2 ^ w).
  { rewrite <- Z.pow_add_r by lia. f_equal; lia. }
  pose proof (Z.pow_pos_nonneg 2 w ltac:(lia) ltac:(lia)) as Hm.
  rewrite Zmod_eq_full by lia.
  unfold wrap_signed. f_equal. rewrite HM.
  set (q := (z + 2 ^ (32 - 1)) / (2 ^ (32 - w) * 2 ^ w)).
  rewrite <- (Z.mod_add (z + 2 ^ (w - 1)) (- (2 ^ (32 - w) * q)) (2 ^ w)) by lia.
  f_equal. ring.
Qed.

(** A value minus its reduction is a multiple of the modulus. *)
Lemma mod_sub_self (a m : Z) : (a mod m - a) mod m = 0.
Proof.
  destruct (Z.eq_dec m 0) as [->|Hm].
  - rewrite !Z.mod_0_r. ring.
  - rewrite (Z.mod_eq a m Hm).
    replace (a - m * (a / m) - a) with (- (a / m) * m) by ring.
    apply Z_mod_mult.
Qed.

(** ** Folding a window *)

Section Fold.
Variable pool : Z -> Z -> Z.
Hypothesis pool_left_comm : forall a b c, pool a (pool b c) = pool b (pool a c).

Lemma fold_window_perm (l l' : list Z) :
  Permutation l l' -> forall i, fold_window pool i l = fold_window pool i l'.
Proof.
  unfold fold_window. induction 1 as [| x l l' _ IH | x y l | l l' l'' _ IH1 _ IH2];
    intros i; simpl.
  - reflexivity.
  - apply IH.
  - rewrite pool_left_comm. reflexivity.
  - rewrite IH1. apply IH2.
Qed.
End Fold.

Lemma add_left_comm (T : ap_type) (a b c : Z) :
  comp.add T a (comp.add T b c) = comp.add T b (comp.add T a c).
Proof. unfold comp.add. rewrite !conv_add_r. f_equal. lia. Qed.

Lemma max_left_comm (a b c : Z) :
  comp.max a (comp.max b c) = comp.max b (comp.max a c).
Proof. unfold comp.max. lia. Qed.

(** Folding [comp.add] sums the window, wrapped into [T]. *)
Lemma fold_add_sum (T : ap_type) (l : list Z) (i : Z) :
  fold_window (comp.add T) (conv T i) l = conv T (sum_list l + i).
Proof.
  revert i. unfold fold_window. induction l as [| x l IH]; intros i; simpl.
  - reflexivity.
  - unfold comp.add at 2. rewrite conv_add_r, IH. f_equal. lia.
Qed.

(** Folding [comp.max] from a start value below every element yields an
    element of the window that bounds all of them. *)
Lemma fold_max_is_max (l : list Z) (i : Z) :
  l <> [] -> Forall (fun e => i <= e) l ->
  In (fold_window comp.max i l) l /\
  Forall (fun e => e <= fold_window comp.max i l) l.
Proof.
  unfold fold_window.
  assert (Hge : forall l i, i <= fold_left (fun a e => comp.max e a) l i).
  { clear. induction l as [| x l IH]; intros i; simpl; [lia|].
    specialize (IH (comp.max x i)). unfold comp.max in *. lia. }
  assert (Hin : forall l i, fold_left (fun a e => comp.max e a) l i = i \/
                            In (fold_left (fun a e => comp.max e a) l i) l).
  { clear. induction l as [| x l IH]; intros i; simpl; [now left|].
    destruct (IH (comp.max x i)) as [H|H]; [|now right; right].
    rewrite H. unfold comp.max. destruct (Z.max_spec x i) as [[_ ->]|[_ ->]];
      [now left | now right; left]. }
  assert (Hub : forall l i, Forall (fun e => e <= fold_left (fun a e => comp.max e a) l i) l).
  { clear - Hge. intros l0. induction l0 as [| x l IH]; intros j; simpl; constructor.
    - pose proof (Hge l (comp.max x j)). unfold comp.max in *. lia.
    - apply IH. }
  intros Hne Hall. split; [|apply Hub].
  destruct l as [| x l]; [congruence|]. simpl.
  inversion Hall as [| ? ? Hx _]; subst.
  destruct (Hin l (comp.max x i)) as [H|H]; [|now right].
  left. rewrite H. unfold comp.max. lia.
Qed.

(** ** [MaxPoolFunction::init] on types of at most 32 bits *)

Lemma max_init_narrow (T : ap_type) :
  1 <= width T <= 32 ->
  MaxPoolFunction.init T = Some (if is_signed T then - 2 ^ (width T - 1) else 0).
Proof.
  intros Hw. pose proof (pow_width_split (width T) ltac:(lia)) as Hp.
  pose proof (Z.pow_pos_nonneg 2 (width T - 1) ltac:(lia) ltac:(lia)) as Hh.
  unfold MaxPoolFunction.init. destruct T as [w s]; cbn [width is_signed] in *.
  destruct s.
  - assert (Hm1 : conv (mk_ap_type w true) (-1) = -1).
    { apply conv_id; cbn [width]; [lia|]. unfold in_range; cbn [width is_signed].
      apply andb_true_iff; split;
        [apply Z.leb_le | apply Z.ltb_lt]; lia. }
    rewrite Hm1. cbn [Z.ltb Z.compare]. unfold int_shl. replace ((0 <=? w - 1) && (w - 1 <? 32)) with true
      by (symmetry; apply andb_true_iff; split; [apply Z.leb_le | apply Z.ltb_lt]; lia).
    unfold conv; cbn [width is_signed]. rewrite wrap_signed_32 by lia.
    rewrite Z.shiftl_1_l. unfold wrap_signed.
    replace (2 ^ (w - 1) + 2 ^ (w - 1)) with (2 ^ w) by lia.
    rewrite Z.mod_same by lia. reflexivity.
  - unfold conv at 1; cbn [width is_signed]. unfold wrap_unsigned.
    replace ((-1) mod 2 ^ w) with (2 ^ w - 1) by (apply Z.mod_unique with (q := -1); lia).
    replace (2 ^ w - 1 <? 0) with false by (symmetry; apply Z.ltb_ge; lia).
    rewrite conv_zero. reflexivity.
Qed.

(** [MaxPoolFunction::init] is at most every value of the type. *)
Lemma max_init_le (T : ap_type) (i x : Z) :
  1 <= width T <= 32 -> MaxPoolFunction.init T = Some i -> in_range T x = true -> i <= x.
Proof.
  intros Hw Hi Hx. rewrite max_init_narrow in Hi by exact Hw. injection Hi as <-.
  unfold in_range in Hx. destruct (is_signed T);
    apply andb_true_iff in Hx as [Hx _]; apply Z.leb_le in Hx; exact Hx.
Qed.

(** On types of at most 32 bits, max pooling a non-empty window yields
    an element of the window that bounds all of them. *)
Lemma max_window_narrow (T : ap_type) (l : list Z) :
  1 <= width T <= 32 -> l <> [] -> Forall (fun e => in_range T e = true) l ->
  exists r, max_window T l = Some r /\ In r l /\ Forall (fun e => e <= r) l.
Proof.
  intros Hw Hne Hl. unfold max_window.
  destruct (MaxPoolFunction.init T) as [i|] eqn:Hi.
  - exists (fold_window comp.max i l). split; [reflexivity|].
    apply fold_max_is_max; [exact Hne|].
    eapply Forall_impl; [|exact Hl]. intros e He. eapply max_init_le; eauto.
  - rewrite max_init_narrow in Hi by exact Hw. discriminate.
Qed.

Example max_window_s8 : max_window (ap_int 8) [3; -5; 9; 2] = Some 9.
Proof. reflexivity. Qed.

Example max_init_s8 : MaxPoolFunction.init (ap_int 8) = Some (-128).
Proof. reflexivity. Qed.


(** [comp.add] is commutative and associative. *)
Lemma add_assoc_comm (T : ap_type) : assoc_comm (comp.add T).
Proof.
  split; intros; unfold comp.add.
  - f_equal. lia.
  - rewrite conv_add_r, (Z.add_comm (conv T (a + b))), conv_add_r. f_equal. lia.
Qed.

(** [MaxPoolFunction::init] on an unsigned type of any width. *)
Lemma max_init_unsigned_any (T : ap_type) :
  1 <= width T -> is_signed T = false -> MaxPoolFunction.init T = Some 0.
Proof.
  intros Hw Hs. destruct T as [w s]; cbn [width is_signed] in *; subst s.
  pose proof (Z.pow_pos_nonneg 2 w ltac:(lia) ltac:(lia)).
  unfold MaxPoolFunction.init. unfold conv at 1; cbn [width is_signed]. unfold wrap_unsigned.
  replace ((-1) mod 2 ^ w) with (2 ^ w - 1) by (apply Z.mod_unique with (q := -1); lia).
  replace (2 ^ w - 1 <? 0) with false by (symmetry; apply Z.ltb_ge; lia).
  rewrite conv_zero. reflexivity.
Qed.

(** [MaxPoolFunction::init] wherever it is defined: unsigned types, and
    signed types of at most 32 bits. *)
Lemma max_init_value (T : ap_type) :
  1 <= width T -> is_signed T = false \/ width T <= 32 ->
  MaxPoolFunction.init T = Some (if is_signed T then - 2 ^ (width T - 1) else 0).
Proof.
  intros Hw [Hs|Hs].
  - rewrite Hs. apply max_init_unsigned_any; assumption.
  - apply max_init_narrow. lia.
Qed.

(** ** The claims *)

(** C1: the Average strategy's [activate] divides by [size] truncating
    toward zero ([Z.quot]): whenever the output type holds the quotient,
    the result is exactly [accu / size] rounded toward zero; with a signed
    output type and [size = 2], [accu = -3] gives [-1], not the floor [-2]. *)
Theorem avg_activate_truncates (TA TO : ap_type)
  (HW : 1 <= width TO) (HS : is_signed TO = true) :
  (forall (size : N) (accu : Z), size <> 0%N ->
     in_range TO (Z.quot accu (Z.of_N size)) = true ->
     AvgPoolFunction.activate TA TO size accu = Some (Z.quot accu (Z.of_N size))) /\
  AvgPoolFunction.activate TA TO 2 (-3) = Some (-1).
Proof.
  assert (Hq : forall (size : N) (accu : Z), size <> 0%N ->
     in_range TO (Z.quot accu (Z.of_N size)) = true ->
     AvgPoolFunction.activate TA TO size accu = Some (Z.quot accu (Z.of_N size))).
  { intros size accu Hs Hr. unfold AvgPoolFunction.activate.
    replace (size =? 0)%N with false by (symmetry; apply N.eqb_neq; exact Hs).
    rewrite conv_id by assumption. reflexivity. }
  split; [exact Hq|].
  apply (Hq 2%N (-3)); [discriminate|].
  pose proof (Z.pow_pos_nonneg 2 (width TO - 1) ltac:(lia) ltac:(lia)).
  unfold in_range. rewrite HS. apply andb_true_iff; split;
    [apply Z.leb_le | apply Z.ltb_lt]; cbn; lia.
Qed.

Lemma avg_activate_truncates_witness :
  AvgPoolFunction.activate (ap_int 8) (ap_int 8) 2 (-3) = Some (-1).
Proof.
  apply (avg_activate_truncates (ap_int 8) (ap_int 8)); cbn; [lia | reflexivity].
Defined.

(** C2: [MaxPoolFunction::init] on [ap_int<40>] evaluates [1<<39] on a
    32-bit [int], which C++ leaves undefined; it does not produce the
    minimum [-(2^39)] of the type. *)
Theorem max_init_s40_undefined : MaxPoolFunction.init (ap_int 40) = None.
Proof. reflexivity. Qed.

(** C3: every strategy's [pool] is commutative and associative, and folding
    a window from [init()] gives the same accumulator for every
    permutation of the window (for [MaxPoolFunction], whenever [init()] is
    defined). *)
Theorem pool_order_independent (T : ap_type) (l l' : list Z)
  (Hp : Permutation l l') :
  assoc_comm (MaxPoolFunction.pool T) /\ assoc_comm (AvgPoolFunction.pool T) /\
  assoc_comm (AccPoolFunction.pool T) /\ assoc_comm (QuantAvgPoolFunction.pool T) /\
  option_map (fun i => fold_window (MaxPoolFunction.pool T) i l) (MaxPoolFunction.init T)
  = option_map (fun i => fold_window (MaxPoolFunction.pool T) i l') (MaxPoolFunction.init T) /\
  fold_window (AvgPoolFunction.pool T) (AvgPoolFunction.init T) l
  = fold_window (AvgPoolFunction.pool T) (AvgPoolFunction.init T) l' /\
  fold_window (AccPoolFunction.pool T) (AccPoolFunction.init T) l
  = fold_window (AccPoolFunction.pool T) (AccPoolFunction.init T) l' /\
  fold_window (QuantAvgPoolFunction.pool T) (QuantAvgPoolFunction.init T) l
  = fold_window (QuantAvgPoolFunction.pool T) (QuantAvgPoolFunction.init T) l'.
Proof.
  assert (Hmax : assoc_comm (MaxPoolFunction.pool T)).
  { unfold MaxPoolFunction.pool, comp.max. split; intros; lia. }
  assert (Hadd : forall i, fold_window (comp.add T) i l = fold_window (comp.add T) i l').
  { apply fold_window_perm; [apply add_left_comm | exact Hp]. }
  repeat split; try apply Hmax; try apply (add_assoc_comm T); try apply Hadd.
  destruct (MaxPoolFunction.init T) as [i|]; [|reflexivity]. cbn. f_equal.
  apply fold_window_perm; [apply max_left_comm | exact Hp].
Qed.

Lemma pool_order_independent_witness :
  fold_window (AvgPoolFunction.pool (ap_int 8)) (AvgPoolFunction.init (ap_int 8)) [1; 2; 3]
  = fold_window (AvgPoolFunction.pool (ap_int 8)) (AvgPoolFunction.init (ap_int 8)) [3; 1; 2].
Proof.
  apply (pool_order_independent (ap_int 8) [1; 2; 3] [3; 1; 2]).
  apply perm_trans with [1; 3; 2]; [apply perm_skip, perm_swap|].
  apply perm_trans with [3; 1; 2]; [apply perm_swap|]. apply Permutation_refl.
Defined.

(** C4: on [ap_int<40>], max pooling the window [[-5]] is undefined: its
    [init()] evaluates [1<<39] on a 32-bit [int]. *)
Theorem max_window_s40_undefined : max_window (ap_int 40) [-5] = None.
Proof. reflexivity. Qed.


(** C5: the Quantized-Average strategy's [activate] shifts the accumulator
    right by [size] bits; on accumulator and output types that hold [40]
    and [10], the window [[4; 8; 12; 16]] folds to [40] and [activate]
    with [size = 2] returns [40 >> 2 = 10]. *)
Theorem quant_avg_activate_shift (TA TO : ap_type)
  (HA : 1 <= width TA) (HTA : in_range TA 40 = true)
  (HO : 1 <= width TO) (HTO : in_range TO 10 = true) :
  (forall (size : N) (accu : Z), in_range TO (Z.shiftr accu (Z.of_N size)) = true ->
     QuantAvgPoolFunction.activate TA TO size accu = Z.shiftr accu (Z.of_N size)) /\
  fold_window (QuantAvgPoolFunction.pool TA) (QuantAvgPoolFunction.init TA)
    [4; 8; 12; 16] = 40 /\
  QuantAvgPoolFunction.activate TA TO 2 40 = 10.
Proof.
  assert (Hs : forall (size : N) (accu : Z), in_range TO (Z.shiftr accu (Z.of_N size)) = true ->
     QuantAvgPoolFunction.activate TA TO size accu = Z.shiftr accu (Z.of_N size)).
  { intros size accu Hr. unfold QuantAvgPoolFunction.activate. apply conv_id; assumption. }
  split; [exact Hs|]. split.
  - change (fold_window (comp.add TA) (conv TA 0) [4; 8; 12; 16] = 40).
    rewrite fold_add_sum. apply conv_id; assumption.
  - apply Hs. exact HTO.
Qed.

Lemma quant_avg_activate_shift_witness :
  QuantAvgPoolFunction.activate (ap_int 16) (ap_int 16) 2
    (fold_window (QuantAvgPoolFunction.pool (ap_int 16))
       (QuantAvgPoolFunction.init (ap_int 16)) [4; 8; 12; 16]) = 10.
Proof.
  destruct (quant_avg_activate_shift (ap_int 16) (ap_int 16)) as [_ [-> H]];
    [cbn; lia | reflexivity | cbn; lia | reflexivity | exact H].
Defined.

(** C6: the Average strategy's fold sums the window (wrapped into [TA]);
    on types that hold [20] and [5], [[2; 4; 6; 8]] folds to [20] and
    [activate] with [size = 4] returns [5]. *)
Theorem avg_pool_sum (TA TO : ap_type)
  (HA : 1 <= width TA) (HTA : in_range TA 20 = true)
  (HO : 1 <= width TO) (HTO : in_range TO 5 = true) :
  (forall l, fold_window (AvgPoolFunction.pool TA) (AvgPoolFunction.init TA) l
             = conv TA (sum_list l)) /\
  fold_window (AvgPoolFunction.pool TA) (AvgPoolFunction.init TA) [2; 4; 6; 8] = 20 /\
  AvgPoolFunction.activate TA TO 4 20 = Some 5.
Proof.
  assert (Hf : forall l, fold_window (AvgPoolFunction.pool TA) (AvgPoolFunction.init TA) l
                         = conv TA (sum_list l)).
  { intros l. change (fold_window (comp.add TA) (conv TA 0) l = conv TA (sum_list l)).
    rewrite fold_add_sum, Z.add_0_r. reflexivity. }
  split; [exact Hf|]. split.
  - rewrite Hf. apply conv_id; assumption.
  - unfold AvgPoolFunction.activate. cbn [N.eqb]. f_equal. apply conv_id; assumption.
Qed.

Lemma avg_pool_sum_witness :
  AvgPoolFunction.activate (ap_int 16) (ap_int 8) 4
    (fold_window (AvgPoolFunction.pool (ap_int 16))
       (AvgPoolFunction.init (ap_int 16)) [2; 4; 6; 8]) = Some 5.
Proof.
  destruct (avg_pool_sum (ap_int 16) (ap_int 8)) as [_ [-> H]];
    [cbn; lia | reflexivity | cbn; lia | reflexivity | exact H].
Defined.

(** C7: the Accumulate strategy's [activate] is the identity, so a window
    yields its sum (wrapped into [TA]); on a type that holds [10],
    [[1; 2; 3; 4]] folds to [10] and [activate] returns [10]. *)
Theorem acc_activate_identity (TA : ap_type)
  (HA : 1 <= width TA) (HTA : in_range TA 10 = true) :
  (forall a, AccPoolFunction.activate TA a = a) /\
  (forall l, AccPoolFunction.activate TA
               (fold_window (AccPoolFunction.pool TA) (AccPoolFunction.init TA) l)
             = conv TA (sum_list l)) /\
  fold_window (AccPoolFunction.pool TA) (AccPoolFunction.init TA) [1; 2; 3; 4] = 10 /\
  AccPoolFunction.activate TA 10 = 10.
Proof.
  assert (Hf : forall l, fold_window (AccPoolFunction.pool TA) (AccPoolFunction.init TA) l
                         = conv TA (sum_list l)).
  { intros l. change (fold_window (comp.add TA) (conv TA 0) l = conv TA (sum_list l)).
    rewrite fold_add_sum, Z.add_0_r. reflexivity. }
  split; [reflexivity|]. split; [exact Hf|]. split; [|reflexivity].
  rewrite Hf. apply conv_id; assumption.
Qed.

Lemma acc_activate_identity_witness :
  AccPoolFunction.activate (ap_int 8)
    (fold_window (AccPoolFunction.pool (ap_int 8))
       (AccPoolFunction.init (ap_int 8)) [1; 2; 3; 4]) = 10.
Proof.
  destruct (acc_activate_identity (ap_int 8)) as [_ [_ [-> H]]];
    [cbn; lia | reflexivity | exact H].
Defined.

(** C8: [init()] is an identity of [pool] on both sides for the sum-based
    strategies, for every value [x] of the accumulator type; for
    [MaxPoolFunction], [pool(x, init()) = x] whenever [x >= init()]. *)
Theorem pool_identity_law (T : ap_type) (x : Z)
  (HW : 1 <= width T) (Hx : in_range T x = true) :
  AvgPoolFunction.pool T x (AvgPoolFunction.init T) = x /\
  AvgPoolFunction.pool T (AvgPoolFunction.init T) x = x /\
  AccPoolFunction.pool T x (AccPoolFunction.init T) = x /\
  AccPoolFunction.pool T (AccPoolFunction.init T) x = x /\
  QuantAvgPoolFunction.pool T x (QuantAvgPoolFunction.init T) = x /\
  QuantAvgPoolFunction.pool T (QuantAvgPoolFunction.init T) x = x /\
  (forall i, MaxPoolFunction.init T = Some i -> i <= x -> MaxPoolFunction.pool T x i = x).
Proof.
  unfold AvgPoolFunction.pool, AvgPoolFunction.init, AccPoolFunction.pool,
    AccPoolFunction.init, QuantAvgPoolFunction.pool, QuantAvgPoolFunction.init,
    PoolFunction.init, comp.add.
  rewrite conv_zero, Z.add_0_r, Z.add_0_l, conv_id by assumption.
  repeat split; try reflexivity.
  intros i _ Hi. unfold MaxPoolFunction.pool, comp.max. lia.
Qed.

Lemma pool_identity_law_witness :
  MaxPoolFunction.pool (ap_int 8) 7 (-128) = 7 /\
  QuantAvgPoolFunction.pool (ap_int 8) (QuantAvgPoolFunction.init (ap_int 8)) (-100) = -100.
Proof.
  destruct (pool_identity_law (ap_int 8) 7) as [_ [_ [_ [_ [_ [_ Hm]]]]]];
    [cbn; lia | reflexivity |].
  split; [apply Hm; [reflexivity | lia]|].
  apply (pool_identity_law (ap_int 8) (-100)); [cbn; lia | reflexivity].
Defined.

(** C9 (counterexample): the Average strategy's [activate] with [size = 0]
    divides by zero. *)
Lemma avg_activate_size0_undefined :
  AvgPoolFunction.activate (ap_int 8) (ap_int 8) 0 5 = None.
Proof. reflexivity. Qed.

(** C9: every operation of every strategy yields a value, with one
    exception: the Average strategy's [activate] is undefined exactly when
    [size = 0].  The [init] of the sum-based strategies is [0];
    [MaxPoolFunction::init] yields a value on every unsigned type and on
    every signed type of 1 to 32 bits; [pool] of all four strategies and
    [activate] of Max, Accumulate and Quantized-Average yield a value for
    all inputs and every [size]. *)
Theorem pool_ops_total (TA TO : ap_type) :
  (1 <= width TA -> is_signed TA = false \/ width TA <= 32 ->
     exists i, MaxPoolFunction.init TA = Some i) /\
  AvgPoolFunction.init TA = 0 /\ AccPoolFunction.init TA = 0 /\
  QuantAvgPoolFunction.init TA = 0 /\
  (forall a b, exists v, MaxPoolFunction.pool TA a b = v) /\
  (forall a b, exists v, AvgPoolFunction.pool TA a b = v) /\
  (forall a b, exists v, AccPoolFunction.pool TA a b = v) /\
  (forall a b, exists v, QuantAvgPoolFunction.pool TA a b = v) /\
  (forall accu, exists o, MaxPoolFunction.activate TA accu = o) /\
  (forall (size : N) accu,
     (exists o, AvgPoolFunction.activate TA TO size accu = Some o) <-> size <> 0%N) /\
  (forall accu, exists o, AccPoolFunction.activate TA accu = o) /\
  (forall (size : N) accu, exists o, QuantAvgPoolFunction.activate TA TO size accu = o).
Proof.
  unfold AvgPoolFunction.init, AccPoolFunction.init, QuantAvgPoolFunction.init,
    PoolFunction.init. rewrite conv_zero.
  split; [intros HW HD; rewrite (max_init_value TA HW HD); eexists; reflexivity|].
  assert (Havg : forall (size : N) accu,
     (exists o, AvgPoolFunction.activate TA TO size accu = Some o) <-> size <> 0%N).
  { intros size accu. split.
    - intros [o Ho] Hz. subst size. discriminate Ho.
    - intros Hs. unfold AvgPoolFunction.activate.
      replace (size =? 0)%N with false by (symmetry; apply N.eqb_neq; exact Hs).
      eexists. reflexivity. }
  repeat match goal with |- _ /\ _ => split end;
    first [exact Havg | reflexivity | intros; eexists; reflexivity].
Qed.

Lemma pool_ops_total_witness :
  (exists i, MaxPoolFunction.init (ap_uint 64) = Some i) /\
  (exists o, AvgPoolFunction.activate (ap_int 8) (ap_int 8) 3 7 = Some o).
Proof.
  split.
  - apply (pool_ops_total (ap_uint 64) (ap_uint 64)); cbn; [lia | left; reflexivity].
  - apply (pool_ops_total (ap_int 8) (ap_int 8)). discriminate.
Defined.


(** C10: the Quantized-Average strategy's [activate] rounds toward negative
    infinity ([Z.div] by [2^size], an arithmetic shift), unlike the Average
    strategy, and the result is the quotient reduced into [TO], congruent
    to it modulo [2^width]: [-3 >> 1] is [-2], while [-3 / 2] is [-1]. *)
Theorem quant_avg_activate_floor (TA TO : ap_type) (size : N) (accu : Z) :
  QuantAvgPoolFunction.activate TA TO size accu = conv TO (accu / 2 ^ Z.of_N size) /\
  (QuantAvgPoolFunction.activate TA TO size accu - accu / 2 ^ Z.of_N size)
    mod 2 ^ width TO = 0 /\
  QuantAvgPoolFunction.activate (ap_int 8) (ap_int 8) 1 (-3) = -2 /\
  AvgPoolFunction.activate (ap_int 8) (ap_int 8) 2 (-3) = Some (-1).
Proof.
  assert (Hd : QuantAvgPoolFunction.activate TA TO size accu
               = conv TO (accu / 2 ^ Z.of_N size)).
  { unfold QuantAvgPoolFunction.activate. rewrite Z.shiftr_div_pow2 by lia. reflexivity. }
  split; [exact Hd|]. split; [|split; reflexivity].
  rewrite Hd. set (q := accu / 2 ^ Z.of_N size). unfold conv, wrap_signed, wrap_unsigned.
  destruct (is_signed TO).
  - replace ((q + 2 ^ (width TO - 1)) mod 2 ^ width TO - 2 ^ (width TO - 1) - q)
      with ((q + 2 ^ (width TO - 1)) mod 2 ^ width TO - (q + 2 ^ (width TO - 1))) by ring.
    apply mod_sub_self.
  - apply mod_sub_self.
Qed.

(** ** Further properties of the pool functions *)

(** Every conversion lands in the type. *)
Lemma conv_in_range (T : ap_type) (z : Z) : 1 <= width T -> in_range T (conv T z) = true.
Proof.
  intros Hw. pose proof (pow_width_split _ Hw) as Hp.
  pose proof (Z.pow_pos_nonneg 2 (width T - 1) ltac:(lia) ltac:(lia)).
  unfold in_range, conv, wrap_signed, wrap_unsigned. destruct (is_signed T).
  - pose proof (Z.mod_pos_bound (z + 2 ^ (width T - 1)) (2 ^ width T) ltac:(lia)).
    apply andb_true_iff; split; [apply Z.leb_le | apply Z.ltb_lt]; lia.
  - pose proof (Z.mod_pos_bound z (2 ^ width T) ltac:(lia)).
    apply andb_true_iff; split; [apply Z.leb_le | apply Z.ltb_lt]; lia.
Qed.

(** A value between two values of a type is a value of the type. *)
Lemma in_range_between (T : ap_type) (lo q hi : Z) :
  in_range T lo = true -> in_range T hi = true -> lo <= q <= hi -> in_range T q = true.
Proof.
  unfold in_range. intros Hl Hh Hq. destruct (is_signed T);
    apply andb_true_iff in Hl as [Hl1 Hl2]; apply andb_true_iff in Hh as [Hh1 Hh2];
    apply Z.leb_le in Hl1, Hh1; apply Z.ltb_lt in Hl2, Hh2;
    apply andb_true_iff; split; [apply Z.leb_le | apply Z.ltb_lt | apply Z.leb_le | apply Z.ltb_lt];
    lia.
Qed.





Lemma max_init_value_le (T : ap_type) (x : Z) :
  in_range T x = true -> (if is_signed T then - 2 ^ (width T - 1) else 0) <= x.
Proof.
  unfold in_range. intros Hx. destruct (is_signed T);
    apply andb_true_iff in Hx as [Hx _]; apply Z.leb_le in Hx; exact Hx.
Qed.

(** Bounds on the sum of a window whose elements lie in [[lo, hi]]. *)
Lemma sum_list_bounds (l : list Z) (lo hi : Z) :
  Forall (fun e => lo <= e <= hi) l ->
  Z.of_nat (length l) * lo <= sum_list l <= Z.of_nat (length l) * hi.
Proof.
  induction 1 as [| x l Hx _ IH]; cbn [length sum_list fold_right]; [lia|].
  fold (sum_list l). rewrite Nat2Z.inj_succ. nia.
Qed.

(** Truncating division of a value between [n*lo] and [n*hi] by [n]. *)
Lemma quot_between (s n lo hi : Z) :
  0 < n -> n * lo <= s <= n * hi -> lo <= Z.quot s n <= hi.
Proof.
  intros Hn Hs. pose proof (Z.quot_rem' s n) as Hqr.
  pose proof (Z.rem_bound_abs s n ltac:(lia)) as Hb.
  destruct (Z_le_gt_dec 0 s) as [Hp|Hp].
  - pose proof (Z.rem_nonneg s n ltac:(lia) Hp). nia.
  - pose proof (Z.rem_nonpos s n ltac:(lia) ltac:(lia)). nia.
Qed.

(** Floor division of a value between [n*lo] and [n*hi] by [n]. *)
Lemma div_between (s n lo hi : Z) :
  0 < n -> n * lo <= s <= n * hi -> lo <= s / n <= hi.
Proof.
  intros Hn Hs. split.
  - apply Z.div_le_lower_bound; lia.
  - apply Z.div_le_upper_bound; lia.
Qed.

(** [MaxPoolFunction::init] is the least value of [T] on every unsigned
    type and every signed type of 1 to 32 bits. *)
Theorem max_init_least (T : ap_type)
  (HW : 1 <= width T) (HD : is_signed T = false \/ width T <= 32) :
  exists i, MaxPoolFunction.init T = Some i /\ in_range T i = true /\
            forall x, in_range T x = true -> i <= x.
Proof.
  exists (if is_signed T then - 2 ^ (width T - 1) else 0).
  split; [apply max_init_value; assumption|]. split.
  - pose proof (Z.pow_pos_nonneg 2 (width T - 1) ltac:(lia) ltac:(lia)).
    pose proof (pow_width_split _ HW).
    unfold in_range. destruct (is_signed T); apply andb_true_iff; split;
      first [apply Z.leb_le | apply Z.ltb_lt]; lia.
  - intros x Hx. apply max_init_value_le. exact Hx.
Qed.

Lemma max_init_least_witness :
  exists i, MaxPoolFunction.init (ap_uint 64) = Some i /\ in_range (ap_uint 64) i = true /\
            forall x, in_range (ap_uint 64) x = true -> i <= x.
Proof. apply max_init_least; cbn; [lia | left; reflexivity]. Defined.

(** On every signed type wider than 32 bits [MaxPoolFunction::init] is
    undefined: it shifts the [int] [1] by at least 32. *)
Theorem max_init_wide_signed_undefined (T : ap_type)
  (HS : is_signed T = true) (HW : 32 < width T) :
  MaxPoolFunction.init T = None.
Proof.
  unfold MaxPoolFunction.init.
  assert (Hm1 : conv T (-1) = -1).
  { apply conv_id; [lia|]. unfold in_range. rewrite HS.
    pose proof (Z.pow_pos_nonneg 2 (width T - 1) ltac:(lia) ltac:(lia)).
    apply andb_true_iff; split; [apply Z.leb_le | apply Z.ltb_lt]; lia. }
  rewrite Hm1. cbn [Z.ltb Z.compare]. unfold int_shl.
  replace (width T - 1 <? 32) with false by (symmetry; apply Z.ltb_ge; lia).
  rewrite andb_false_r. reflexivity.
Qed.

Lemma max_init_wide_signed_undefined_witness : MaxPoolFunction.init (ap_int 64) = None.
Proof. apply max_init_wide_signed_undefined; [reflexivity | cbn; lia]. Defined.

(** Wherever [MaxPoolFunction::init] is defined, max pooling a non-empty
    window of values of [T] yields an element of the window that is at
    least every element. *)
Theorem max_window_maximum (T : ap_type) (l : list Z)
  (HW : 1 <= width T) (HD : is_signed T = false \/ width T <= 32)
  (Hne : l <> []) (Hl : Forall (fun e => in_range T e = true) l) :
  exists r, max_window T l = Some r /\ In r l /\ Forall (fun e => e <= r) l.
Proof.
  unfold max_window. rewrite (max_init_value T HW HD).
  eexists. split; [reflexivity|]. unfold MaxPoolFunction.activate, MaxPoolFunction.pool.
  apply fold_max_is_max; [exact Hne|].
  eapply Forall_impl; [|exact Hl]. intros e He. apply max_init_value_le. exact He.
Qed.

Lemma max_window_maximum_witness :
  exists r, max_window (ap_uint 48) [7; 300; 12] = Some r /\ In r [7; 300; 12] /\
            Forall (fun e => e <= r) [7; 300; 12].
Proof.
  apply max_window_maximum; cbn; [lia | left; reflexivity | discriminate |].
  repeat constructor.
Defined.

(** An empty window: max pooling yields the least value of [T] wherever
    [init] is defined; the sum-based strategies fold to [0], which the
    Average activation maps to [0] for every [size <> 0], and the
    Accumulate and Quantized-Average activations map to [0] for every
    [size]. *)
Theorem empty_window_outputs (TA TO : ap_type) :
  (1 <= width TA -> is_signed TA = false \/ width TA <= 32 ->
     max_window TA [] = Some (if is_signed TA then - 2 ^ (width TA - 1) else 0)) /\
  (forall size : N, size <> 0%N ->
     AvgPoolFunction.activate TA TO size
       (fold_window (AvgPoolFunction.pool TA) (AvgPoolFunction.init TA) []) = Some 0) /\
  AccPoolFunction.activate TA
    (fold_window (AccPoolFunction.pool TA) (AccPoolFunction.init TA) []) = 0 /\
  (forall size : N,
     QuantAvgPoolFunction.activate TA TO size
       (fold_window (QuantAvgPoolFunction.pool TA) (QuantAvgPoolFunction.init TA) []) = 0).
Proof.
  cbn [fold_window fold_left]. unfold AvgPoolFunction.init, AccPoolFunction.init,
    QuantAvgPoolFunction.init, PoolFunction.init. rewrite conv_zero.
  split; [|split; [|split]].
  - intros HW HD. unfold max_window. rewrite (max_init_value TA HW HD). reflexivity.
  - intros size Hs. unfold AvgPoolFunction.activate.
    replace (size =? 0)%N with false by (symmetry; apply N.eqb_neq; exact Hs).
    rewrite Z.quot_0_l by lia. rewrite conv_zero. reflexivity.
  - reflexivity.
  - intros size. unfold QuantAvgPoolFunction.activate. rewrite Z.shiftr_0_l. apply conv_zero.
Qed.

Lemma empty_window_outputs_witness :
  max_window (ap_int 8) [] = Some (-128) /\
  AvgPoolFunction.activate (ap_int 8) (ap_int 8) 4
    (fold_window (AvgPoolFunction.pool (ap_int 8)) (AvgPoolFunction.init (ap_int 8)) []) = Some 0.
Proof.
  destruct (empty_window_outputs (ap_int 8) (ap_int 8)) as [H1 [H2 _]].
  split; [apply H1; cbn; lia | apply H2; discriminate].
Defined.

(** The accumulator of the sum-based strategies never leaves [TA], for
    every window (an overflowing sum wraps around), and it is congruent to
    the exact sum modulo [2^width]. *)
Theorem sum_fold_in_range (TA : ap_type) (l : list Z) (HW : 1 <= width TA) :
  in_range TA (fold_window (AvgPoolFunction.pool TA) (AvgPoolFunction.init TA) l) = true /\
  in_range TA (fold_window (AccPoolFunction.pool TA) (AccPoolFunction.init TA) l) = true /\
  in_range TA (fold_window (QuantAvgPoolFunction.pool TA) (QuantAvgPoolFunction.init TA) l)
    = true /\
  (fold_window (QuantAvgPoolFunction.pool TA) (QuantAvgPoolFunction.init TA) l - sum_list l)
    mod 2 ^ width TA = 0.
Proof.
  assert (Hf : forall p, p = comp.add TA ->
    fold_window p (conv TA 0) l = conv TA (sum_list l)).
  { intros p ->. rewrite fold_add_sum, Z.add_0_r. reflexivity. }
  unfold AvgPoolFunction.init, AccPoolFunction.init, QuantAvgPoolFunction.init,
    PoolFunction.init.
  rewrite !Hf by reflexivity.
  split; [apply conv_in_range; exact HW|]. split; [apply conv_in_range; exact HW|].
  split; [apply conv_in_range; exact HW|].
  unfold conv, wrap_signed, wrap_unsigned. destruct (is_signed TA).
  - replace ((sum_list l + 2 ^ (width TA - 1)) mod 2 ^ width TA - 2 ^ (width TA - 1)
             - sum_list l)
      with ((sum_list l + 2 ^ (width TA - 1)) mod 2 ^ width TA
            - (sum_list l + 2 ^ (width TA - 1))) by ring.
    apply mod_sub_self.
  - apply mod_sub_self.
Qed.

Lemma sum_fold_in_range_witness :
  fold_window (AccPoolFunction.pool (ap_int 8)) (AccPoolFunction.init (ap_int 8)) [100; 100]
  = -56 /\
  in_range (ap_int 8)
    (fold_window (AccPoolFunction.pool (ap_int 8)) (AccPoolFunction.init (ap_int 8))
       [100; 100]) = true.
Proof.
  split; [reflexivity|].
  apply (sum_fold_in_range (ap_int 8) [100; 100]). cbn; lia.
Defined.



(** Average pooling a window of [size] elements, all in [[lo, hi]], whose
    sum does not overflow [TA], yields a value in [[lo, hi]] (when [lo] and
    [hi] are values of [TO]). *)
Theorem avg_window_between (TA TO : ap_type) (size : N) (l : list Z) (lo hi : Z)
  (HA : 1 <= width TA) (HO : 1 <= width TO)
  (Hlen : Z.of_nat (length l) = Z.of_N size) (Hs : size <> 0%N)
  (Hl : Forall (fun e => lo <= e <= hi) l)
  (Hsum : in_range TA (sum_list l) = true)
  (Hlo : in_range TO lo = true) (Hhi : in_range TO hi = true) :
  exists q, AvgPoolFunction.activate TA TO size
              (fold_window (AvgPoolFunction.pool TA) (AvgPoolFunction.init TA) l) = Some q /\
            lo <= q <= hi.
Proof.
  pose proof (sum_list_bounds l lo hi Hl) as Hb. rewrite Hlen in Hb.
  assert (Hn : 0 < Z.of_N size) by lia.
  pose proof (quot_between (sum_list l) (Z.of_N size) lo hi Hn Hb) as Hq.
  exists (Z.quot (sum_list l) (Z.of_N size)). split; [|exact Hq].
  change (AvgPoolFunction.activate TA TO size
            (fold_window (comp.add TA) (conv TA 0) l) = Some (Z.quot (sum_list l) (Z.of_N size))).
  rewrite fold_add_sum, Z.add_0_r, (conv_id TA) by assumption.
  unfold AvgPoolFunction.activate.
  replace (size =? 0)%N with false by (symmetry; apply N.eqb_neq; exact Hs).
  rewrite conv_id; [reflexivity | exact HO |].
  eapply in_range_between; [exact Hlo | exact Hhi | exact Hq].
Qed.

Lemma avg_window_between_witness :
  exists q, AvgPoolFunction.activate (ap_int 8) (ap_int 4) 3
              (fold_window (AvgPoolFunction.pool (ap_int 8)) (AvgPoolFunction.init (ap_int 8))
                 [-7; -6; 2]) = Some q /\ -7 <= q <= 2.
Proof.
  apply avg_window_between; cbn; try lia; try reflexivity; try discriminate.
  repeat constructor; lia.
Defined.

(** Quantized-average pooling a window of [2^size] elements, all in
    [[lo, hi]], whose sum does not overflow [TA], yields a value in
    [[lo, hi]] (when [lo] and [hi] are values of [TO]). *)
Theorem quant_avg_window_between (TA TO : ap_type) (size : N) (l : list Z) (lo hi : Z)
  (HA : 1 <= width TA) (HO : 1 <= width TO)
  (Hlen : Z.of_nat (length l) = 2 ^ Z.of_N size)
  (Hl : Forall (fun e => lo <= e <= hi) l)
  (Hsum : in_range TA (sum_list l) = true)
  (Hlo : in_range TO lo = true) (Hhi : in_range TO hi = true) :
  lo <= QuantAvgPoolFunction.activate TA TO size
          (fold_window (QuantAvgPoolFunction.pool TA) (QuantAvgPoolFunction.init TA) l) <= hi.
Proof.
  pose proof (sum_list_bounds l lo hi Hl) as Hb. rewrite Hlen in Hb.
  assert (Hn : 0 < 2 ^ Z.of_N size) by (apply Z.pow_pos_nonneg; lia).
  pose proof (div_between (sum_list l) _ lo hi Hn Hb) as Hq.
  change (lo <= QuantAvgPoolFunction.activate TA TO size
                  (fold_window (comp.add TA) (conv TA 0) l) <= hi).
  rewrite fold_add_sum, Z.add_0_r, (conv_id TA) by assumption.
  unfold QuantAvgPoolFunction.activate. rewrite Z.shiftr_div_pow2 by lia.
  rewrite conv_id; [exact Hq | exact HO |].
  eapply in_range_between; [exact Hlo | exact Hhi | exact Hq].
Qed.

Lemma quant_avg_window_between_witness :
  -7 <= QuantAvgPoolFunction.activate (ap_int 8) (ap_int 4) 2
          (fold_window (QuantAvgPoolFunction.pool (ap_int 8))
             (QuantAvgPoolFunction.init (ap_int 8)) [-7; -6; 2; 1]) <= 2.
Proof.
  apply quant_avg_window_between; cbn; try lia; try reflexivity.
  repeat constructor; lia.
Defined.

(** On a non-negative accumulator, the Quantized-Average output with shift
    [s] equals the Average output with [size = 2^s]. *)
Theorem quant_avg_agrees_avg_nonneg (TA TO : ap_type) (s : N) (accu : Z)
  (Hacc : 0 <= accu) :
  AvgPoolFunction.activate TA TO (2 ^ s)%N accu
  = Some (QuantAvgPoolFunction.activate TA TO s accu).
Proof.
  unfold AvgPoolFunction.activate, QuantAvgPoolFunction.activate.
  assert (Hp : 0 < Z.of_N (2 ^ s)%N) by (rewrite N2Z.inj_pow; apply Z.pow_pos_nonneg; lia).
  replace ((2 ^ s =? 0)%N) with false by (symmetry; apply N.eqb_neq; lia).
  rewrite Z.quot_div_nonneg by lia. rewrite Z.shiftr_div_pow2 by lia.
  rewrite N2Z.inj_pow. reflexivity.
Qed.

Lemma quant_avg_agrees_avg_nonneg_witness :
  AvgPoolFunction.activate (ap_int 16) (ap_int 8) 8 77
  = Some (QuantAvgPoolFunction.activate (ap_int 16) (ap_int 8) 3 77).
Proof. apply (quant_avg_agrees_avg_nonneg (ap_int 16) (ap_int 8) 3 77). lia. Defined.

(** Shifting a value of [TA] by at least [TA]'s width leaves only its sign:
    the Quantized-Average output is [TO(-1)] for a negative accumulator and
    [0] otherwise. *)
Theorem quant_avg_shift_saturates (TA TO : ap_type) (size : N) (accu : Z)
  (HW : 1 <= width TA) (Hr : in_range TA accu = true) (Hs : width TA <= Z.of_N size) :
  QuantAvgPoolFunction.activate TA TO size accu = conv TO (if accu <? 0 then -1 else 0).
Proof.
  unfold QuantAvgPoolFunction.activate. f_equal. rewrite Z.shiftr_div_pow2 by lia.
  pose proof (Z.pow_le_mono_r 2 (width TA) (Z.of_N size) ltac:(lia) Hs) as Hle.
  pose proof (pow_width_split _ HW) as Hp.
  pose proof (Z.pow_pos_nonneg 2 (width TA - 1) ltac:(lia) ltac:(lia)).
  unfold in_range in Hr.
  destruct (is_signed TA); apply andb_true_iff in Hr as [H1 H2];
    apply Z.leb_le in H1; apply Z.ltb_lt in H2.
  - destruct (Z.ltb_spec accu 0).
    + symmetry. apply Z.div_unique with (r := accu + 2 ^ Z.of_N size); lia.
    + apply Z.div_small. lia.
  - replace (accu <? 0) with false by (symmetry; apply Z.ltb_ge; lia).
    apply Z.div_small. lia.
Qed.

Lemma quant_avg_shift_saturates_witness :
  QuantAvgPoolFunction.activate (ap_int 8) (ap_int 8) 8 (-100) = -1.
Proof.
  rewrite (quant_avg_shift_saturates (ap_int 8) (ap_int 8) 8 (-100)); cbn; try lia; reflexivity.
Defined.

(** Average pooling truncates toward zero: an accumulator strictly smaller
    than [size] in absolute value gives [0], also when it is negative. *)
Theorem avg_activate_small_zero (TA TO : ap_type) (size : N) (accu : Z)
  (Hs : Z.abs accu < Z.of_N size) :
  AvgPoolFunction.activate TA TO size accu = Some 0.
Proof.
  unfold AvgPoolFunction.activate.
  replace (size =? 0)%N with false by (symmetry; apply N.eqb_neq; lia).
  replace (Z.quot accu (Z.of_N size)) with 0; [rewrite conv_zero; reflexivity|].
  destruct (Z_le_gt_dec 0 accu).
  - symmetry. apply Z.quot_small. lia.
  - replace accu with (- (- accu)) by ring. rewrite Z.quot_opp_l by lia.
    rewrite Z.quot_small by lia. reflexivity.
Qed.

Lemma avg_activate_small_zero_witness :
  AvgPoolFunction.activate (ap_int 8) (ap_int 8) 4 (-3) = Some 0.
Proof. apply avg_activate_small_zero. cbn. lia. Defined.
